(** * HTV-Server news module: [src/news/news.js]

    A shallow embedding of the three functions of the news module
    ([getNews], [searchForArticlesFromSource], [reduceArticles]) and the
    properties of the aggregation pipeline proved about them.

    Conventions of the embedding:
    - a JavaScript value that may be [undefined] is an [option];
    - a JavaScript Number that the code counts with is a [nat] or a [Z],
      one that it divides is a binary64 [float];
    - the asynchronous part of [getNews] is a state machine: the state holds
      the variables the closures share ([articles], [pending]), the console
      and the calls made to the caller's callback; one step is the arrival of
      one per-source answer. *)

From Stdlib Require Import ZArith String Ascii Bool Lia.
From Stdlib Require Import List Permutation.
From Stdlib Require Import QArith.
From Stdlib Require Import PrimFloat SpecFloat FloatOps.
Import ListNotations.

Local Open Scope string_scope.
Local Open Scope list_scope.
Local Open Scope Z_scope.

(** ** Data model *)

(** An entry of [sources.json]: [{id, name}]. *)
Module Source.
Record t : Type := mk { id : string; name : string }.
End Source.

(** An entry of [response.articles] in a NewsAPI payload.  [title] and
    [description] are [None] when the property is missing or [null].
    [publishedAt] stands for the Number [new Date(article.publishedAt).getTime()],
    the milliseconds since the epoch of the parsed date. *)
Module Entry.
Record t : Type := mk {
  title : option string;
  description : option string;
  publishedAt : float;
  url : option string;
  urlToImage : option string
}.
End Entry.

(** An element of the arrays [reduceArticles] receives.  The six fields from
    [title] to [media] are the ones [searchForArticlesFromSource] writes.
    [id] is what the property read [articles[j].id] evaluates to: [None] when
    the object has no such property. *)
Module Article.
Record t : Type := mk {
  id : option string;
  title : option string;
  description : option string;
  timestamp : float;
  source : string;
  link : option string;
  media : option string
}.
End Article.

(** The two values of [config.js] the module reads.  [maxArticles] of the
    source is [config.maxArticlesStorageCap] read once at load time. *)
Module Config.
Record t : Type := mk {
  maxArticlesStorageCap : Z;
  sources : list string
}.
End Config.

Definition maxArticles (config : Config.t) : Z := Config.maxArticlesStorageCap config.

(** ** [reduceArticles] *)

(** [articles[j].id === config.sources[i]]: strict equality of a possibly
    undefined property with a string. *)
Definition id_matches (a : Article.t) (p : string) : bool :=
  match Article.id a with
  | Some s => String.eqb s p
  | None => false
  end.

(** The loop variables [count] and [finalArticles]. *)
Definition Acc : Type := (nat * list Article.t)%type.

(** Body of the inner loop up to the test of the cap: push and count the
    article when its id is the priority entry. *)
Definition visit (p : string) (a : Article.t) (acc : Acc) : Acc :=
  if id_matches a p then (S (fst acc), snd acc ++ [a]) else acc.

(** The inner [for (j ...)] loop over [articles] for one priority entry:
    [inr l] when [return finalArticles] was executed, [inl acc] when the loop
    ran to its end. *)
Fixpoint scan (cap : Z) (p : string) (articles : list Article.t) (acc : Acc)
  : Acc + list Article.t :=
  match articles with
  | [] => inl acc
  | a :: rest =>
      let acc' := visit p a acc in
      if Z.of_nat (fst acc') =? cap then inr (snd acc')
      else scan cap p rest acc'
  end.

(** The outer [for (i ...)] loop over [config.sources].  Falling off its end
    reaches the end of the function body, which has no [return]: the call
    evaluates to [undefined], here [None]. *)
Fixpoint walk (cap : Z) (priority : list string) (articles : list Article.t)
  (acc : Acc) : option (list Article.t) :=
  match priority with
  | [] => None
  | p :: ps =>
      match scan cap p articles acc with
      | inr l => Some l
      | inl acc' => walk cap ps articles acc'
      end
  end.

Definition reduceArticles (config : Config.t) (articles : list Article.t)
  : option (list Article.t) :=
  if Z.of_nat (List.length articles) <=? maxArticles config then Some articles
  else walk (Config.maxArticlesStorageCap config) (Config.sources config)
         articles (0%nat, []).

(** *** The double walk, flattened

    The pairs (priority entry, article) in the order the two nested loops
    visit them, and the value of [count] after each visit.  These are the
    terms in which the behaviour of [reduceArticles] is stated below. *)

Definition Visit : Type := (string * Article.t)%type.

Definition visits (priority : list string) (articles : list Article.t) : list Visit :=
  flat_map (fun p => map (fun a => (p, a)) articles) priority.

Definition is_match (v : Visit) : bool := id_matches (snd v) (fst v).

(** Value of [count] after each visit, starting from [c]. *)
Fixpoint running_counts (c : nat) (vs : list Visit) : list nat :=
  match vs with
  | [] => []
  | v :: rest =>
      let c' := if is_match v then S c else c in
      c' :: running_counts c' rest
  end.

(** The count reaches the cap at some visit of the walk. *)
Definition reaches_cap (cap : Z) (priority : list string) (articles : list Article.t) : Prop :=
  Exists (fun c => Z.of_nat c = cap) (running_counts 0 (visits priority articles)).

(** Number of matching visits: pairs of a priority entry and an article
    whose [id] is that entry. *)
Definition match_count (priority : list string) (articles : list Article.t) : nat :=
  List.length (filter is_match (visits priority articles)).

(** No article of the list has an [id] equal to an entry of the priority list. *)
Definition no_id_in (priority : list string) (articles : list Article.t) : Prop :=
  forall a p, In a articles -> In p priority -> id_matches a p = false.

(** ** [searchForArticlesFromSource] *)

(** Truthiness of a JavaScript string, and of one that may be undefined. *)
Definition truthy (s : string) : bool := negb (String.eqb s "").

Definition field_truthy (field : option string) : bool :=
  match field with
  | Some s => truthy s
  | None => false
  end.

(** The two kinds of error value the module passes around: the one [request]
    reports, and [new Error(message)]. *)
Inductive Error : Type :=
| RequestError (cause : string)
| NewError (message : string).

(** The parsed body of a NewsAPI answer, of the shape NewsAPI documents: an
    object with a string [status] and an array [articles] of objects. *)
Module Payload.
Record t : Type := mk { status : string; articles : list Entry.t }.
End Payload.

(** What [request] passes to its callback: an error, or a response with a
    body.  [body] is [None] when the text is not JSON, in which case
    [JSON.parse] throws, and [Some] of the parsed value when it is JSON of
    the documented shape. *)
Inductive Reply : Type :=
| ReplyError (cause : string)
| ReplyBody (body : option Payload.t).

(** The arguments [(error, response)] of the callback given to
    [searchForArticlesFromSource]. *)
Inductive Answer : Type :=
| AnswerError (error : Error)
| AnswerArticles (response : list Article.t).

(** Effect of the [request] callback: it throws, or it calls back once. *)
Inductive Outcome : Type :=
| Throws
| Calls (answer : Answer).

Section Search.

(** [pattern.test]: the predicate built by [newsUtils.generateFuzzyPattern],
    which is not part of this module; it is a parameter of the embedding. *)
Variable test : string -> bool.


(** [title && pattern.test(title)], as the boolean the [if] sees. *)
Definition field_matches (field : option string) : bool :=
  match field with
  | Some s => truthy s && test s
  | None => false
  end.

Definition entry_matches (e : Entry.t) : bool :=
  field_matches (Entry.title e) || field_matches (Entry.description e).

(** [new Date(article.publishedAt).getTime() / 1000] *)
Definition timestamp_of (e : Entry.t) : float :=
  (Entry.publishedAt e / 1000)%float.

(** The object literal pushed for a matching entry. *)
Definition article_of (source : Source.t) (e : Entry.t) : Article.t :=
  {| Article.id := None;
     Article.title := Entry.title e;
     Article.description := Entry.description e;
     Article.timestamp := timestamp_of e;
     Article.source := Source.name source;
     Article.link := Entry.url e;
     Article.media := Entry.urlToImage e |}.

(** One iteration of [response.articles.forEach]. *)
Definition keep (source : Source.t) (articles : list Article.t) (e : Entry.t)
  : list Article.t :=
  if entry_matches e then articles ++ [article_of source e] else articles.

Definition searchForArticlesFromSource (source : Source.t) (reply : Reply) : Outcome :=
  match reply with
  | ReplyError cause => Calls (AnswerError (RequestError cause))
  | ReplyBody None => Throws
  | ReplyBody (Some response) =>
      if negb (String.eqb (Payload.status response) "ok")
      then Calls (AnswerError
             (NewError ("NewsAPI returned status " ++ Payload.status response ++ " ")%string))
      else Calls (AnswerArticles (fold_left (keep source) (Payload.articles response) []))
  end.

(** What the claims call "satisfies the predicate": an absent field does
    not satisfy it. *)
Definition satisfies (field : option string) : bool :=
  match field with
  | Some s => test s
  | None => false
  end.

End Search.

(** ** [getNews] *)

(** The variables shared by the closures of one call of [getNews], together
    with what the call has done to the outside: the requests started, the
    calls of [console.error] (message and error object) and the calls of
    [callback], oldest first.  An element of [callback_calls] is the
    argument of the call, [None] for [undefined]. *)
Record State : Type := mkState {
  articles : list Article.t;
  pending : Z;
  dispatched : list Source.t;
  console : list (string * Error);
  callback_calls : list (option (list Article.t))
}.

(** The template literal [`Request to ${source} failed`].  [source] is an
    object of [sources.json], and an object without a [toString] of its own
    is interpolated as [[object Object]]. *)
Definition object_to_string (source : Source.t) : string := "[object Object]".

Definition failure_message (source : Source.t) : string :=
  ("Request to " ++ object_to_string source ++ " failed")%string.

(** [respond ()] *)
Definition respond (config : Config.t) (st : State) : State :=
  {| articles := articles st;
     pending := pending st;
     dispatched := dispatched st;
     console := console st;
     callback_calls := callback_calls st ++ [reduceArticles config (articles st)] |}.

(** The arrow function [(error, response) => ...] that [getNews] gives to
    [searchForArticlesFromSource] for [source]. *)
Definition on_answer (config : Config.t) (source : Source.t) (answer : Answer)
  (st : State) : State :=
  let pending' := pending st - 1 in
  match answer with
  | AnswerError error =>
      {| articles := articles st;
         pending := pending';
         dispatched := dispatched st;
         console := console st ++ [(failure_message source, error)];
         callback_calls := callback_calls st |}
  | AnswerArticles response =>
      let st' := {| articles := articles st ++ response;
                    pending := pending';
                    dispatched := dispatched st;
                    console := console st;
                    callback_calls := callback_calls st |} in
      if pending' =? 0 then respond config st' else st'
  end.

(** [sources.forEach(...)] run from the initial values of [articles] and
    [pending]: one request started per source and nothing answered yet. *)
Definition dispatch (sources : list Source.t) : State :=
  {| articles := [];
     pending := Z.of_nat (List.length sources);
     dispatched := sources;
     console := [];
     callback_calls := [] |}.

(** The synchronous part of [getNews]: [None] when it throws for want of an
    API key, otherwise the state in which it returns. *)
Definition getNews (apiKey : option string) (sources : list Source.t) : option State :=
  if negb (field_truthy apiKey) then None else Some (dispatch sources).

(** An event is the arrival of the answer of the query of one source. *)
Definition Event : Type := (Source.t * Answer)%type.

Definition run (config : Config.t) (st : State) (events : list Event) : State :=
  fold_left (fun st ev => on_answer config (fst ev) (snd ev) st) events st.

(** The same one level down: the events are the replies [request] gets.  A
    reply on which [searchForArticlesFromSource] throws calls nothing. *)
Definition on_reply (test : string -> bool) (config : Config.t)
  (source : Source.t) (reply : Reply) (st : State) : State :=
  match searchForArticlesFromSource test source reply with
  | Calls answer => on_answer config source answer st
  | Throws => st
  end.

Definition run_replies (test : string -> bool) (config : Config.t) (st : State)
  (replies : list (Source.t * Reply)) : State :=
  fold_left (fun st r => on_reply test config (fst r) (snd r) st) replies st.

(** The answers a list of replies gives rise to. *)
Definition answers (test : string -> bool) (replies : list (Source.t * Reply)) : list Event :=
  flat_map (fun r => match searchForArticlesFromSource test (fst r) (snd r) with
                     | Calls answer => [(fst r, answer)]
                     | Throws => []
                     end) replies.

(** Every started query has been answered, each once, in the order of [events]. *)
Definition all_settled (sources : list Source.t) (events : list Event) : Prop :=
  Permutation (map fst events) sources.

(** The responses of the answers that carry one, and the failures, each in
    order of arrival. *)
Definition successes (events : list Event) : list Article.t :=
  flat_map (fun ev => match snd ev with
                      | AnswerArticles response => response
                      | AnswerError _ => []
                      end) events.

Definition failures (events : list Event) : list (string * Error) :=
  flat_map (fun ev => match snd ev with
                      | AnswerError error => [(failure_message (fst ev), error)]
                      | AnswerArticles _ => []
                      end) events.

(** ** Auxiliary definitions *)

(** The walk of [reduceArticles] over an explicit list of visits: the two
    nested loops as one. *)
Fixpoint walk_visits (cap : Z) (vs : list Visit) (acc : Acc) : option (list Article.t) :=
  match vs with
  | [] => None
  | v :: rest =>
      let acc' := visit (fst v) (snd v) acc in
      if Z.of_nat (fst acc') =? cap then Some (snd acc')
      else walk_visits cap rest acc'
  end.

(** All the orders in which the elements of a list can arrive. *)
Fixpoint insert_everywhere {A : Type} (x : A) (l : list A) : list (list A) :=
  match l with
  | [] => [[x]]
  | y :: rest => (x :: l) :: map (cons y) (insert_everywhere x rest)
  end.

Fixpoint orders {A : Type} (l : list A) : list (list A) :=
  match l with
  | [] => [[]]
  | x :: rest => flat_map (insert_everywhere x) (orders rest)
  end.

(** Modelled from the spec: the Matcher, [newsUtils.generateFuzzyPattern],
    is not among the sources of the module.  Section 4.1 asks of its
    predicate that a text matches when it contains the phrase up to minor
    variation; [contains_ci] is such a predicate (containment up to the case
    of ASCII letters).  It only serves to instantiate the parameter [test]
    on concrete inputs. *)
Definition lower (c : ascii) : ascii :=
  let n := nat_of_ascii c in
  if ((65 <=? n) && (n <=? 90))%nat then ascii_of_nat (n + 32) else c.

Fixpoint starts_with_ci (phrase text : string) : bool :=
  match phrase, text with
  | EmptyString, _ => true
  | String _ _, EmptyString => false
  | String c phrase', String d text' =>
      Ascii.eqb (lower c) (lower d) && starts_with_ci phrase' text'
  end.

Fixpoint contains_ci (phrase text : string) : bool :=
  starts_with_ci phrase text
  || match text with
     | EmptyString => false
     | String _ text' => contains_ci phrase text'
     end.

(** An article without an [id] property, as [searchForArticlesFromSource]
    builds them, and one with it. *)
Definition plain_article (name title : string) : Article.t :=
  Article.mk None (Some title) None 0%float name None None.

Definition tagged_article (id name title : string) : Article.t :=
  Article.mk (Some id) (Some title) None 0%float name None None.

(** *** The end-to-end scenario of the specification

    Three sources; the cap is 2 and the priority list names B, A, C by their
    ids; A answers with two matching entries (and one that does not match),
    B with one, and the request to C fails. *)
Definition srcA : Source.t := Source.mk "a" "A".
Definition srcB : Source.t := Source.mk "b" "B".
Definition srcC : Source.t := Source.mk "c" "C".

Definition scenario_sources : list Source.t := [srcA; srcB; srcC].

Definition scenario_config : Config.t := Config.mk 2 ["b"; "a"; "c"].

Definition scenario_test : string -> bool := contains_ci "election".

Definition entry (title description : string) (ms : float) : Entry.t :=
  Entry.mk (Some title) (Some description) ms None None.

Definition replyA : Reply :=
  ReplyBody (Some (Payload.mk "ok"
    [entry "Election day" "Polls open" 1600000000000%float;
     entry "Weather today" "Sunny" 1600000001000%float;
     entry "Turnout" "Record turnout in the election" 1600000002000%float])).

Definition replyB : Reply :=
  ReplyBody (Some (Payload.mk "ok"
    [entry "Election results announced" "Final count" 1600000000500%float])).

Definition replyC : Reply := ReplyError "ECONNRESET".

Definition scenario_replies : list (Source.t * Reply) :=
  [(srcA, replyA); (srcB, replyB); (srcC, replyC)].

(** The three matching articles of the scenario as they would be if each
    carried the id of its source, in the order A, A, B. *)
Definition tagged_candidates : list Article.t :=
  [tagged_article "a" "A" "A1"; tagged_article "a" "A" "A2"; tagged_article "b" "B" "B1"].

(** The merged list of the scenario when the answers arrive in the order
    A, B, C, as [searchForArticlesFromSource] builds its elements. *)
Definition plain_candidates : list Article.t :=
  [article_of srcA (entry "Election day" "Polls open" 1600000000000%float);
   article_of srcA (entry "Turnout" "Record turnout in the election" 1600000002000%float);
   article_of srcB (entry "Election results announced" "Final count" 1600000000500%float)].

(** Two sources, B answering with one article and the request to C
    failing, in the two orders of arrival. *)
Definition articleB : Article.t := plain_article "B" "Election results announced".

Definition success_then_failure : list Event :=
  [(srcB, AnswerArticles [articleB]); (srcC, AnswerError (RequestError "ECONNRESET"))].

Definition failure_then_success : list Event :=
  [(srcC, AnswerError (RequestError "ECONNRESET")); (srcB, AnswerArticles [articleB])].

(** An article satisfies the predicate on its title or on its description. *)
Definition relevant (test : string -> bool) (a : Article.t) : bool :=
  satisfies test (Article.title a) || satisfies test (Article.description a).

(** The articles grouped by priority entry: for each entry in turn, the
    articles whose [id] is that entry, in their order in the input. *)
Definition grouped (priority : list string) (articles : list Article.t) : list Article.t :=
  flat_map (fun p => filter (fun a => id_matches a p) articles) priority.

(** The answer is a failure. *)
Definition is_failure (ev : Event) : bool :=
  match snd ev with
  | AnswerError _ => true
  | AnswerArticles _ => false
  end.

(** The field is present, not empty, and accepted by the predicate. *)
Definition nonempty_match (test : string -> bool) (field : option string) : Prop :=
  exists s, field = Some s /\ s <> "" /\ test s = true.

(** The exact rational value of a finite binary64 number. *)
Definition float_to_Q (f : float) : option Q :=
  match Prim2SF f with
  | S754_zero _ => Some 0%Q
  | S754_finite sign m e =>
      let v := (inject_Z (Z.pos m) * Qpower 2 e)%Q in
      Some (Qred (if sign then Qopp v else v))
  | _ => None
  end.

(** ** Properties of [reduceArticles] *)

#[local] Arguments Z.of_nat : simpl never.
#[local] Arguments Z.eqb : simpl never.
#[local] Arguments Z.leb : simpl never.

Lemma scan_flat (cap : Z) (p : string) (arts : list Article.t) :
  forall (rest : list Visit) (acc : Acc),
    walk_visits cap (map (fun a => (p, a)) arts ++ rest) acc =
    match scan cap p arts acc with
    | inr l => Some l
    | inl acc' => walk_visits cap rest acc'
    end.
Proof.
  induction arts as [|a arts IH]; intros rest acc; simpl.
  - reflexivity.
  - destruct (Z.of_nat (fst (visit p a acc)) =? cap); [reflexivity | apply IH].
Qed.

Lemma walk_flat (cap : Z) (articles : list Article.t) :
  forall (priority : list string) (acc : Acc),
    walk cap priority articles acc = walk_visits cap (visits priority articles) acc.
Proof.
  induction priority as [|p ps IH]; intros acc.
  - reflexivity.
  - change (visits (p :: ps) articles)
      with (map (fun a => (p, a)) articles ++ visits ps articles).
    rewrite scan_flat. simpl.
    destruct (scan cap p articles acc) as [acc'|l]; [apply IH | reflexivity].
Qed.

(** The walk answers [undefined] exactly when no value of [count] is the cap. *)
Lemma walk_visits_none (cap : Z) (vs : list Visit) :
  forall (c : nat) (final : list Article.t),
    walk_visits cap vs (c, final) = None <->
    Forall (fun c' => Z.of_nat c' <> cap) (running_counts c vs).
Proof.
  induction vs as [|v vs IH]; intros c final; simpl.
  - split; [constructor | reflexivity].
  - unfold visit, is_match. destruct (id_matches (snd v) (fst v)); simpl.
    + destruct (Z.eqb_spec (Z.of_nat (S c)) cap) as [E|E].
      * split; [discriminate | intros H; inversion H; contradiction].
      * rewrite IH. split; [intros H; constructor; assumption | intros H; inversion H; assumption].
    + destruct (Z.eqb_spec (Z.of_nat c) cap) as [E|E].
      * split; [discriminate | intros H; inversion H; contradiction].
      * rewrite IH. split; [intros H; constructor; assumption | intros H; inversion H; assumption].
Qed.

(** When the walk returns, it has visited a prefix of the visits, and
    [finalArticles] holds, after what it held at the start, the articles of
    the matching visits of that prefix, as many as the cap asks. *)
Lemma walk_visits_some (cap : Z) (vs : list Visit) :
  forall (c : nat) (final l : list Article.t),
    walk_visits cap vs (c, final) = Some l ->
    exists seen rest,
      vs = seen ++ rest /\
      l = final ++ map snd (filter is_match seen) /\
      Z.of_nat (c + List.length (filter is_match seen)) = cap.
Proof.
  induction vs as [|v vs IH]; intros c final l; simpl.
  - discriminate.
  - unfold visit. change (id_matches (snd v) (fst v)) with (is_match v).
    destruct (is_match v) eqn:M; simpl.
    + destruct (Z.eqb_spec (Z.of_nat (S c)) cap) as [E|E].
      * intros H; injection H as <-. exists [v], vs. simpl. rewrite M. simpl.
        repeat split. rewrite <- E. f_equal. lia.
      * intros H. apply IH in H. destruct H as (seen & rest & -> & -> & Hc).
        exists (v :: seen), rest. simpl. rewrite M. simpl.
        repeat split.
        -- rewrite <- app_assoc. reflexivity.
        -- rewrite <- Hc. f_equal. lia.
    + destruct (Z.eqb_spec (Z.of_nat c) cap) as [E|E].
      * intros H; injection H as <-. exists [v], vs. simpl. rewrite M. simpl.
        repeat split; [rewrite app_nil_r; reflexivity | rewrite <- E; f_equal; lia].
      * intros H. apply IH in H. destruct H as (seen & rest & -> & -> & Hc).
        exists (v :: seen), rest. simpl. rewrite M.
        repeat split. assumption.
Qed.

Lemma running_counts_no_match (vs : list Visit) :
  Forall (fun v => is_match v = false) vs ->
  forall c, Forall (fun c' => c' = c) (running_counts c vs).
Proof.
  induction 1 as [|v vs Hv _ IH]; intros c; simpl.
  - constructor.
  - rewrite Hv. constructor; [reflexivity | apply IH].
Qed.

Lemma visits_no_match (priority : list string) (articles : list Article.t) :
  no_id_in priority articles ->
  Forall (fun v => is_match v = false) (visits priority articles).
Proof.
  intros H. apply Forall_forall. intros [p a] Hin.
  apply in_flat_map in Hin. destruct Hin as (p' & Hp & Ha).
  apply in_map_iff in Ha. destruct Ha as (a' & E & Ha). injection E as <- <-.
  apply H; assumption.
Qed.

Lemma filter_app_length {A : Type} (f : A -> bool) (l1 l2 : list A) :
  (List.length (filter f l1) <= List.length (filter f (l1 ++ l2)))%nat.
Proof.
  rewrite filter_app, length_app. lia.
Qed.

Lemma visits_snd_in (priority : list string) (articles : list Article.t) (v : Visit) :
  In v (visits priority articles) -> In (snd v) articles.
Proof.
  intros Hin. apply in_flat_map in Hin. destruct Hin as (p & _ & Ha).
  apply in_map_iff in Ha. destruct Ha as (a & <- & Ha). exact Ha.
Qed.

(** [response.articles.forEach] keeps the matching entries, in order. *)
Lemma keep_fold (test : string -> bool) (source : Source.t) (entries : list Entry.t) :
  forall acc,
    fold_left (keep test source) entries acc =
    acc ++ map (article_of source) (filter (entry_matches test) entries).
Proof.
  induction entries as [|e entries IH]; intros acc; simpl.
  - rewrite app_nil_r. reflexivity.
  - rewrite IH. unfold keep. destruct (entry_matches test e); simpl.
    + rewrite <- app_assoc. reflexivity.
    + reflexivity.
Qed.

(** The answers of [searchForArticlesFromSource], by reply. *)
Lemma search_articles_inv (test : string -> bool) (source : Source.t) (reply : Reply)
  (response : list Article.t) :
  searchForArticlesFromSource test source reply = Calls (AnswerArticles response) ->
  exists entries,
    reply = ReplyBody (Some (Payload.mk "ok" entries)) /\
    response = map (article_of source) (filter (entry_matches test) entries).
Proof.
  destruct reply as [cause|[[status entries]|]]; simpl; try discriminate.
  destruct (String.eqb_spec status "ok") as [->|Hne]; simpl; [|discriminate].
  intros H. injection H as <-. exists entries. split; [reflexivity|].
  apply (keep_fold test source entries []).
Qed.

Lemma search_builds_no_id (test : string -> bool) (source : Source.t) (reply : Reply)
  (response : list Article.t) :
  searchForArticlesFromSource test source reply = Calls (AnswerArticles response) ->
  Forall (fun a => Article.id a = None) response.
Proof.
  intros H. apply search_articles_inv in H. destruct H as (entries & _ & ->).
  apply Forall_forall. intros a Ha. apply in_map_iff in Ha.
  destruct Ha as (e & <- & _). reflexivity.
Qed.

(** With a cap of 0 the walk returns the empty list at its first visit when
    that visit is not a match; an empty input is passed through. *)
Lemma reduceArticles_cap_zero (p : string) (ps : list string)
  (a : Article.t) (rest : list Article.t) :
  id_matches a p = false ->
  reduceArticles (Config.mk 0 (p :: ps)) (a :: rest) = Some [] /\
  reduceArticles (Config.mk 0 (p :: ps)) [] = Some [].
Proof.
  intros M. split; [|reflexivity].
  unfold reduceArticles, maxArticles. cbn [Config.maxArticlesStorageCap Config.sources].
  change (Z.of_nat (List.length (a :: rest)) <=? 0) with false.
  cbn [walk scan]. unfold visit. rewrite M. reflexivity.
Qed.

(** What [reduceArticles] does on an input longer than the cap, in terms of
    the flattened walk. *)
Lemma reduceArticles_long (config : Config.t) (articles : list Article.t) :
  Config.maxArticlesStorageCap config < Z.of_nat (List.length articles) ->
  reduceArticles config articles =
  walk_visits (Config.maxArticlesStorageCap config)
    (visits (Config.sources config) articles) (0%nat, []).
Proof.
  intros H. unfold reduceArticles, maxArticles.
  destruct (Z.leb_spec (Z.of_nat (List.length articles)) (Config.maxArticlesStorageCap config));
    [lia | apply walk_flat].
Qed.

(** What [reduceArticles] does on an input not longer than the cap. *)
Lemma reduceArticles_short (config : Config.t) (articles : list Article.t) :
  Z.of_nat (List.length articles) <= Config.maxArticlesStorageCap config ->
  reduceArticles config articles = Some articles.
Proof.
  intros H. unfold reduceArticles, maxArticles.
  destruct (Z.leb_spec (Z.of_nat (List.length articles)) (Config.maxArticlesStorageCap config));
    [reflexivity | lia].
Qed.

(** C6: an articles list whose length is at most the cap is returned as it
    is, in its original order. *)
Theorem reduceArticles_pass_through (config : Config.t) (articles : list Article.t) :
  Z.of_nat (List.length articles) <= Config.maxArticlesStorageCap config ->
  reduceArticles config articles = Some articles.
Proof.
  intros H. unfold reduceArticles, maxArticles.
  destruct (Z.leb_spec (Z.of_nat (List.length articles)) (Config.maxArticlesStorageCap config));
    [reflexivity | lia].
Qed.

Lemma reduceArticles_pass_through_witness :
  reduceArticles scenario_config [plain_article "A" "first"; plain_article "B" "second"] =
  Some [plain_article "A" "first"; plain_article "B" "second"].
Proof.
  apply (reduceArticles_pass_through scenario_config
           [plain_article "A" "first"; plain_article "B" "second"]).
  vm_compute. discriminate.
Defined.

(** C5, as stated, fails on the pass-through: one article and a cap of 1 give
    a result of length 1, the cap, although no article matches the priority
    list. *)
Lemma reduceArticles_full_without_match :
  reduceArticles (Config.mk 1 ["b"]) [plain_article "A" "only"] =
    Some [plain_article "A" "only"] /\
  Z.of_nat (List.length [plain_article "A" "only"]) = 1 /\
  match_count ["b"] [plain_article "A" "only"] = 0%nat.
Proof. repeat split. Qed.

(** C5, amended: a list returned by [reduceArticles] has at most cap
    elements, all of them articles of the input.  When the input is longer
    than the cap the returned list has exactly cap elements, and the walk has
    at least cap matching visits; when it is not, the returned list is the
    input. *)
Theorem reduceArticles_length (config : Config.t) (articles l : list Article.t) :
  reduceArticles config articles = Some l ->
  Z.of_nat (List.length l) <= Config.maxArticlesStorageCap config /\
  incl l articles /\
  (Config.maxArticlesStorageCap config < Z.of_nat (List.length articles) ->
     Z.of_nat (List.length l) = Config.maxArticlesStorageCap config /\
     Config.maxArticlesStorageCap config <=
       Z.of_nat (match_count (Config.sources config) articles)) /\
  (Z.of_nat (List.length articles) <= Config.maxArticlesStorageCap config ->
     l = articles).
Proof.
  intros H.
  destruct (Z.leb_spec (Z.of_nat (List.length articles)) (Config.maxArticlesStorageCap config))
    as [Hle|Hgt].
  - rewrite (reduceArticles_short _ _ Hle) in H. injection H as <-.
    repeat split; [assumption | apply incl_refl | lia | lia].
  - rewrite (reduceArticles_long _ _ Hgt) in H.
    apply walk_visits_some in H. destruct H as (seen & rest & Hvs & -> & Hc).
    cbn [app] in *. rewrite length_map.
    assert (Hin : incl (map snd (filter is_match seen)) articles).
    { intros a Ha. apply in_map_iff in Ha. destruct Ha as (v & <- & Hv).
      apply filter_In in Hv. destruct Hv as [Hv _].
      apply (visits_snd_in (Config.sources config)). rewrite Hvs.
      apply in_or_app. left. exact Hv. }
    assert (Hm : (List.length (filter is_match seen) <=
                  match_count (Config.sources config) articles)%nat).
    { unfold match_count. rewrite Hvs. apply filter_app_length. }
    unfold Visit in *.
    repeat split; first [lia | exact Hin].
Qed.

Lemma reduceArticles_length_witness :
  reduceArticles scenario_config tagged_candidates =
    Some [tagged_article "b" "B" "B1"; tagged_article "a" "A" "A1"] /\
  Z.of_nat (List.length [tagged_article "b" "B" "B1"; tagged_article "a" "A" "A1"]) <= 2 /\
  2 <= Z.of_nat (match_count ["b"; "a"; "c"] tagged_candidates).
Proof.
  split; [reflexivity|].
  pose proof (reduceArticles_length scenario_config tagged_candidates
                [tagged_article "b" "B" "B1"; tagged_article "a" "A" "A1"] eq_refl)
    as (Hle & _ & Hlong & _).
  split; [exact Hle|].
  apply Hlong. reflexivity.
Defined.

(** C7: with a cap of 0, [reduceArticles] evaluated where it does not return
    the empty list: on a non-empty input with an empty priority list, and on
    an input whose first article matches the first priority entry, the
    result is [undefined]. *)
Theorem reduceArticles_cap_zero_undefined :
  reduceArticles (Config.mk 0 []) [plain_article "A" "only"] = None /\
  reduceArticles (Config.mk 0 ["a"]) [tagged_article "a" "A" "only"] = None.
Proof. split; reflexivity. Qed.

(** C10, as stated, fails when the cap is 0: no article has an [id], and yet
    the walk returns a list, the empty one, at its first visit. *)
Lemma reduceArticles_no_id_cap_zero :
  0 < Z.of_nat (List.length [plain_article "A" "only"]) /\
  no_id_in ["a"] [plain_article "A" "only"] /\
  reduceArticles (Config.mk 0 ["a"]) [plain_article "A" "only"] = Some [].
Proof.
  split; [reflexivity|]. split; [|reflexivity].
  intros a p [<-|[]] _. reflexivity.
Qed.

(** C10, amended: on an input longer than the cap, [reduceArticles] falls off
    the end of both loops and yields [undefined] exactly when the running
    count never equals the cap during the double walk.  That is the case
    whenever no article has an [id] equal to a priority entry and the cap is
    not 0 (or the priority list is empty); and no article built by
    [searchForArticlesFromSource] has an [id]. *)
Theorem reduceArticles_falls_off (config : Config.t) (articles : list Article.t) :
  Config.maxArticlesStorageCap config < Z.of_nat (List.length articles) ->
  (reduceArticles config articles = None <->
   ~ reaches_cap (Config.maxArticlesStorageCap config) (Config.sources config) articles) /\
  (Config.maxArticlesStorageCap config <> 0 \/ Config.sources config = [] ->
   no_id_in (Config.sources config) articles ->
   reduceArticles config articles = None) /\
  (forall test source reply response,
     searchForArticlesFromSource test source reply = Calls (AnswerArticles response) ->
     Forall (fun a => Article.id a = None) response /\
     no_id_in (Config.sources config) response).
Proof.
  intros Hlong. rewrite (reduceArticles_long _ _ Hlong). split; [|split].
  - rewrite walk_visits_none. unfold reaches_cap.
    rewrite <- Forall_Exists_neg. reflexivity.
  - intros Hcap Hno. apply walk_visits_none.
    destruct Hcap as [Hcap|Hnil].
    + eapply Forall_impl; [|apply running_counts_no_match, visits_no_match, Hno].
      intros c ->. simpl. lia.
    + rewrite Hnil. constructor.
  - intros test source reply response Hs.
    assert (Hid : Forall (fun a => Article.id a = None) response).
    { apply (search_builds_no_id test source reply). exact Hs. }
    split; [exact Hid|].
    intros a p Ha _. unfold id_matches.
    rewrite Forall_forall in Hid. rewrite (Hid a Ha). reflexivity.
Qed.

Lemma reduceArticles_falls_off_witness :
  reduceArticles scenario_config plain_candidates = None.
Proof.
  assert (Hlong : Config.maxArticlesStorageCap scenario_config <
                  Z.of_nat (List.length plain_candidates)) by reflexivity.
  apply (proj1 (proj2 (reduceArticles_falls_off scenario_config plain_candidates Hlong))).
  - left. discriminate.
  - intros a p Ha _.
    destruct Ha as [<-|[<-|[<-|[]]]]; reflexivity.
Defined.

(** ** Orders of arrival *)

Lemma insert_everywhere_in {A : Type} (x : A) (l1 l2 : list A) :
  In (l1 ++ x :: l2) (insert_everywhere x (l1 ++ l2)).
Proof.
  induction l1 as [|y l1 IH]; simpl.
  - destruct l2; simpl; left; reflexivity.
  - right. apply in_map. exact IH.
Qed.

Lemma orders_complete {A : Type} (l : list A) :
  forall l', Permutation l l' -> In l' (orders l).
Proof.
  induction l as [|x l IH]; intros l' HP.
  - apply Permutation_nil in HP. subst. left. reflexivity.
  - assert (Hx : In x l') by (apply (Permutation_in _ HP); left; reflexivity).
    apply in_split in Hx. destruct Hx as (l1 & l2 & ->).
    apply Permutation_cons_app_inv in HP.
    simpl. apply in_flat_map. exists (l1 ++ l2). split.
    + apply IH. exact HP.
    + apply insert_everywhere_in.
Qed.

(** ** Properties of [getNews] *)

Section Run.

Variable config : Config.t.

Lemma run_cons (st : State) (ev : Event) (events : list Event) :
  run config st (ev :: events) =
  run config (on_answer config (fst ev) (snd ev) st) events.
Proof. reflexivity. Qed.

Lemma run_app (st : State) (ev1 ev2 : list Event) :
  run config st (ev1 ++ ev2) = run config (run config st ev1) ev2.
Proof. apply fold_left_app. Qed.

Lemma on_answer_pending (source : Source.t) (answer : Answer) (st : State) :
  pending (on_answer config source answer st) = pending st - 1.
Proof.
  unfold on_answer. destruct answer; [reflexivity|].
  destruct (_ =? 0); reflexivity.
Qed.

Lemma on_answer_dispatched (source : Source.t) (answer : Answer) (st : State) :
  dispatched (on_answer config source answer st) = dispatched st.
Proof.
  unfold on_answer. destruct answer; [reflexivity|].
  destruct (_ =? 0); reflexivity.
Qed.

Lemma on_answer_articles (ev : Event) (st : State) :
  articles (on_answer config (fst ev) (snd ev) st) = articles st ++ successes [ev].
Proof.
  unfold on_answer, successes. simpl. destruct (snd ev).
  - simpl. rewrite app_nil_r. reflexivity.
  - rewrite app_nil_r. destruct (_ =? 0); reflexivity.
Qed.

Lemma on_answer_console (ev : Event) (st : State) :
  console (on_answer config (fst ev) (snd ev) st) = console st ++ failures [ev].
Proof.
  unfold on_answer, failures. simpl. destruct (snd ev).
  - reflexivity.
  - rewrite app_nil_r. destruct (_ =? 0); reflexivity.
Qed.

Lemma successes_app (ev1 ev2 : list Event) :
  successes (ev1 ++ ev2) = successes ev1 ++ successes ev2.
Proof. apply flat_map_app. Qed.

Lemma failures_app (ev1 ev2 : list Event) :
  failures (ev1 ++ ev2) = failures ev1 ++ failures ev2.
Proof. apply flat_map_app. Qed.

Lemma run_pending (events : list Event) :
  forall st, pending (run config st events) = pending st - Z.of_nat (List.length events).
Proof.
  induction events as [|ev events IH]; intros st.
  - simpl. lia.
  - rewrite run_cons.
    rewrite IH, on_answer_pending. cbn [List.length]. lia.
Qed.

Lemma run_dispatched (events : list Event) :
  forall st, dispatched (run config st events) = dispatched st.
Proof.
  induction events as [|ev events IH]; intros st; [reflexivity|].
  rewrite run_cons.
  rewrite IH. apply on_answer_dispatched.
Qed.

Lemma run_articles (events : list Event) :
  forall st, articles (run config st events) = articles st ++ successes events.
Proof.
  induction events as [|ev events IH]; intros st.
  - simpl. rewrite app_nil_r. reflexivity.
  - rewrite run_cons.
    rewrite IH, on_answer_articles.
    change (ev :: events) with ([ev] ++ events).
    rewrite successes_app, app_assoc. reflexivity.
Qed.

Lemma run_console (events : list Event) :
  forall st, console (run config st events) = console st ++ failures events.
Proof.
  induction events as [|ev events IH]; intros st.
  - simpl. rewrite app_nil_r. reflexivity.
  - rewrite run_cons.
    rewrite IH, on_answer_console.
    change (ev :: events) with ([ev] ++ events).
    rewrite failures_app, app_assoc. reflexivity.
Qed.

(** What one answer does to the calls of the callback. *)
Lemma on_answer_calls (ev : Event) (st : State) :
  callback_calls (on_answer config (fst ev) (snd ev) st) =
  callback_calls st ++
  match snd ev with
  | AnswerArticles response =>
      if pending st =? 1 then [reduceArticles config (articles st ++ response)] else []
  | AnswerError _ => []
  end.
Proof.
  unfold on_answer. destruct (snd ev) as [e|response].
  - simpl. rewrite app_nil_r. reflexivity.
  - destruct (Z.eqb_spec (pending st - 1) 0) as [E|E];
      destruct (Z.eqb_spec (pending st) 1) as [E'|E']; try lia.
    + reflexivity.
    + simpl. rewrite app_nil_r. reflexivity.
Qed.

(** No call of the callback while answers are still outstanding. *)
Lemma run_calls_pending (events : list Event) :
  forall st,
    Z.of_nat (List.length events) < pending st ->
    callback_calls (run config st events) = callback_calls st.
Proof.
  induction events as [|ev events IH]; intros st Hlt; [reflexivity|].
  rewrite run_cons.
  cbn [List.length] in Hlt.
  rewrite IH by (rewrite on_answer_pending; lia).
  rewrite on_answer_calls.
  destruct (snd ev) as [e|response]; [apply app_nil_r|].
  destruct (Z.eqb_spec (pending st) 1); [lia | apply app_nil_r].
Qed.

(** No call of the callback once [pending] is below 1. *)
Lemma run_calls_late (events : list Event) :
  forall st,
    pending st < 1 ->
    callback_calls (run config st events) = callback_calls st.
Proof.
  induction events as [|ev events IH]; intros st Hlt; [reflexivity|].
  rewrite run_cons.
  rewrite IH by (rewrite on_answer_pending; lia).
  rewrite on_answer_calls.
  destruct (snd ev) as [e|response]; [apply app_nil_r|].
  destruct (Z.eqb_spec (pending st) 1); [lia | apply app_nil_r].
Qed.

(** The callback is called by the answer that brings [pending] to 0, if that
    answer is a success, and by no other. *)
Lemma run_calls_last (st : State) (before after : list Event) (ev : Event) :
  pending st = Z.of_nat (List.length before) + 1 ->
  callback_calls (run config st (before ++ ev :: after)) =
  callback_calls st ++
  match snd ev with
  | AnswerArticles _ => [reduceArticles config (articles st ++ successes (before ++ [ev]))]
  | AnswerError _ => []
  end.
Proof.
  intros Hp. rewrite run_app.
  rewrite run_cons.
  rewrite run_calls_late by (rewrite on_answer_pending, run_pending; lia).
  rewrite on_answer_calls, run_calls_pending by lia.
  f_equal. destruct (snd ev) as [e|response] eqn:E; [reflexivity|].
  rewrite run_pending, run_articles, successes_app.
  destruct (Z.eqb_spec (pending st - Z.of_nat (List.length before)) 1); [|lia].
  unfold successes at 3. simpl. rewrite E, app_nil_r, app_assoc. reflexivity.
Qed.

(** Once every query of a non-empty source list is answered, the callback
    has been called once if the last answer was a success, and not at all if
    it was a failure. *)
Lemma getNews_calls_settled (sources : list Source.t)
  (before : list Event) (ev : Event) :
  all_settled sources (before ++ [ev]) ->
  callback_calls (run config (dispatch sources) (before ++ [ev])) =
  match snd ev with
  | AnswerArticles _ => [reduceArticles config (successes (before ++ [ev]))]
  | AnswerError _ => []
  end.
Proof.
  intros HP. apply Permutation_length in HP.
  rewrite length_map, length_app in HP. cbn [List.length] in HP.
  rewrite (run_calls_last (dispatch sources) before [] ev).
  - reflexivity.
  - cbn [dispatch pending]. lia.
Qed.

End Run.

(** C1: [getNews] evaluated on one source whose query fails: the query has
    settled, [pending] is 0, and the callback has not been called; no event
    is left that could call it.  The same with two sources when the failure
    arrives after the success. *)
Theorem getNews_failure_last_no_callback :
  getNews (Some "key") [srcC] = Some (dispatch [srcC]) /\
  all_settled [srcC] [(srcC, AnswerError (RequestError "ECONNRESET"))] /\
  pending (run scenario_config (dispatch [srcC])
             [(srcC, AnswerError (RequestError "ECONNRESET"))]) = 0 /\
  callback_calls (run scenario_config (dispatch [srcC])
                    [(srcC, AnswerError (RequestError "ECONNRESET"))]) = [] /\
  all_settled [srcB; srcC]
    [(srcB, AnswerArticles [plain_article "B" "Election results announced"]);
     (srcC, AnswerError (RequestError "ECONNRESET"))] /\
  callback_calls (run scenario_config (dispatch [srcB; srcC])
    [(srcB, AnswerArticles [plain_article "B" "Election results announced"]);
     (srcC, AnswerError (RequestError "ECONNRESET"))]) = [].
Proof.
  repeat split; try reflexivity; apply Permutation_refl.
Qed.

(** C4: [getNews] evaluated on an empty source list: it starts no request
    and returns with [pending] at 0 and the callback not called; nothing can
    arrive afterwards, and the callback is never called. *)
Theorem getNews_no_sources_no_callback :
  getNews (Some "key") [] = Some (dispatch []) /\
  dispatched (dispatch []) = [] /\
  pending (dispatch []) = 0 /\
  callback_calls (dispatch []) = [] /\
  (forall events, all_settled [] events -> events = []) /\
  (forall config events, callback_calls (run config (dispatch []) events) = []).
Proof.
  repeat split.
  - intros events HP. apply Permutation_sym, Permutation_nil in HP.
    destruct events; [reflexivity | discriminate].
  - intros config events. apply run_calls_late. simpl. lia.
Qed.

(** The closure variables in every run of [getNews], whatever the answers
    and their order: the failures are on the console, each with its cause,
    and the merged list is the concatenation of the responses of the successful queries in
    order of arrival: every article of a successful query is in it, and a
    failure leaves it as it would be without that query.  With an API key
    [getNews] does not throw, and the only value the caller's callback ever
    receives is a result of [reduceArticles] on merged responses. *)
Theorem getNews_failure_isolated (config : Config.t) (sources : list Source.t)
  (events : list Event) :
  console (run config (dispatch sources) events) = failures events /\
  articles (run config (dispatch sources) events) = successes events /\
  (forall source error, In (source, AnswerError error) events ->
     In (failure_message source, error)
       (console (run config (dispatch sources) events))) /\
  (forall source response, In (source, AnswerArticles response) events ->
     incl response (articles (run config (dispatch sources) events))) /\
  (forall before source error after,
     events = before ++ (source, AnswerError error) :: after ->
     articles (run config (dispatch sources) events) =
     articles (run config (dispatch sources) (before ++ after))) /\
  (forall key, truthy key = true ->
     getNews (Some key) sources = Some (dispatch sources)) /\
  (forall arg, In arg (callback_calls (run config (dispatch sources) events)) ->
     exists k, arg = reduceArticles config (successes (firstn k events))).
Proof.
  rewrite run_console, run_articles. cbn [dispatch console articles app].
  repeat split.
  - intros source error Hin. unfold failures. apply in_flat_map.
    exists (source, AnswerError error). split; [exact Hin | left; reflexivity].
  - intros source response Hin a Ha. unfold successes. apply in_flat_map.
    exists (source, AnswerArticles response). split; [exact Hin | exact Ha].
  - intros before source error after ->. rewrite run_articles.
    rewrite !successes_app. reflexivity.
  - intros key Hk. unfold getNews. simpl. rewrite Hk. reflexivity.
  - intros arg Hin.
    destruct (Nat.eq_dec (List.length sources) 0) as [Hz|Hnz].
    + rewrite run_calls_late in Hin by (cbn [dispatch pending]; lia). destruct Hin.
    + destruct (Nat.lt_ge_cases (List.length events) (List.length sources)) as [Hlt|Hge].
      * rewrite run_calls_pending in Hin by (cbn [dispatch pending]; lia). destruct Hin.
      * rewrite <- (firstn_skipn (List.length sources - 1) events) in Hin.
        assert (Hlen : List.length (firstn (List.length sources - 1) events) =
                       (List.length sources - 1)%nat)
          by (apply firstn_length_le; lia).
        destruct (skipn (List.length sources - 1) events) as [|ev after] eqn:Hs.
        { apply (f_equal (@List.length Event)) in Hs. rewrite length_skipn in Hs.
          simpl in Hs. lia. }
        rewrite run_calls_last in Hin by (cbn [dispatch pending]; lia).
        cbn [dispatch callback_calls articles app] in Hin.
        destruct (snd ev) eqn:E; [destruct Hin|].
        destruct Hin as [<-|[]].
        exists (List.length sources). f_equal. f_equal.
        rewrite <- (firstn_skipn (List.length sources - 1) events) at 2.
        rewrite Hs.
        rewrite firstn_app, Hlen.
        replace (List.length sources - (List.length sources - 1))%nat with 1%nat by lia.
        rewrite (firstn_all2 (n := List.length sources)
                   (firstn (List.length sources - 1) events))
          by (unfold Event in *; lia).
        reflexivity.
Qed.

(** C3: [getNews] evaluated on two sources, B answering with one article
    and the request to C failing afterwards.  The failure is on the console
    and the article of B is in the merged list, but the callback is never
    called: the caller does not receive the result of B.  With the same two
    answers in the other order, or with B as the only source, the caller
    receives it.  So it is for every run: when the answer that arrives last
    is a failure, the merged responses of the other sources are never handed
    to the callback. *)
Theorem getNews_failure_last_drops_results :
  all_settled [srcB; srcC] success_then_failure /\
  articles (run scenario_config (dispatch [srcB; srcC]) success_then_failure) = [articleB] /\
  console (run scenario_config (dispatch [srcB; srcC]) success_then_failure) =
    [(failure_message srcC, RequestError "ECONNRESET")] /\
  pending (run scenario_config (dispatch [srcB; srcC]) success_then_failure) = 0 /\
  callback_calls (run scenario_config (dispatch [srcB; srcC]) success_then_failure) = [] /\
  callback_calls (run scenario_config (dispatch [srcB; srcC]) failure_then_success) =
    [Some [articleB]] /\
  callback_calls (run scenario_config (dispatch [srcB]) [(srcB, AnswerArticles [articleB])]) =
    [Some [articleB]] /\
  (forall config sources before source error,
     all_settled sources (before ++ [(source, AnswerError error)]) ->
     articles (run config (dispatch sources) (before ++ [(source, AnswerError error)])) =
       successes before /\
     callback_calls (run config (dispatch sources) (before ++ [(source, AnswerError error)])) =
       []).
Proof.
  split; [apply Permutation_refl|].
  do 6 (split; [reflexivity|]).
  intros config sources before source error HP. apply Permutation_length in HP.
  rewrite length_map, length_app in HP. cbn [List.length] in HP.
  split.
  - rewrite run_articles, successes_app. cbn [dispatch articles app].
    unfold successes at 2. simpl. apply app_nil_r.
  - pose proof (run_calls_last config (dispatch sources) before []
                  (source, AnswerError error)) as Hlast.
    cbn [dispatch pending callback_calls snd app] in Hlast.
    apply Hlast. unfold Event in *. lia.
Qed.

(** ** Properties of [searchForArticlesFromSource] and of the pipeline *)

Lemma run_replies_run (test : string -> bool) (config : Config.t)
  (replies : list (Source.t * Reply)) :
  forall st, run_replies test config st replies = run config st (answers test replies).
Proof.
  induction replies as [|r replies IH]; intros st; [reflexivity|].
  change (run_replies test config st (r :: replies))
    with (run_replies test config (on_reply test config (fst r) (snd r) st) replies).
  change (answers test (r :: replies))
    with (match searchForArticlesFromSource test (fst r) (snd r) with
          | Calls answer => [(fst r, answer)]
          | Throws => []
          end ++ answers test replies).
  rewrite IH, run_app. unfold on_reply.
  destruct (searchForArticlesFromSource test (fst r) (snd r)); reflexivity.
Qed.

(** Under the Matcher's contract that the empty text does not match, the
    test the code makes on a field is the predicate on that field. *)
Lemma field_matches_satisfies (test : string -> bool) (field : option string) :
  test "" = false -> field_matches test field = satisfies test field.
Proof.
  intros Hempty. destruct field as [s|]; [|reflexivity]. simpl. unfold truthy.
  destruct (String.eqb_spec s "") as [->|_]; [symmetry; exact Hempty | reflexivity].
Qed.

Lemma entry_matches_relevant (test : string -> bool) (source : Source.t) (e : Entry.t) :
  test "" = false ->
  entry_matches test e = relevant test (article_of source e).
Proof.
  intros Hempty. unfold entry_matches, relevant. simpl.
  rewrite !field_matches_satisfies by exact Hempty. reflexivity.
Qed.

Lemma search_ok (test : string -> bool) (source : Source.t) (entries : list Entry.t) :
  searchForArticlesFromSource test source (ReplyBody (Some (Payload.mk "ok" entries))) =
  Calls (AnswerArticles (map (article_of source) (filter (entry_matches test) entries))).
Proof.
  simpl. f_equal. f_equal. apply (keep_fold test source entries []).
Qed.

Lemma successes_answers_relevant (test : string -> bool) (replies : list (Source.t * Reply)) :
  test "" = false ->
  Forall (fun a => relevant test a = true) (successes (answers test replies)).
Proof.
  intros Hempty. apply Forall_forall. intros a Ha.
  unfold successes in Ha. apply in_flat_map in Ha. destruct Ha as ([s ans] & Hev & Ha).
  unfold answers in Hev. apply in_flat_map in Hev. destruct Hev as (r & _ & Hr).
  destruct (searchForArticlesFromSource test (fst r) (snd r)) as [|answer] eqn:Hs; [destruct Hr|].
  destruct Hr as [E|[]]. injection E as <- <-. simpl in Ha.
  destruct answer as [e|response]; [destruct Ha|].
  apply search_articles_inv in Hs. destruct Hs as (entries & _ & ->).
  apply in_map_iff in Ha. destruct Ha as (e & <- & He).
  apply filter_In in He. destruct He as [_ He].
  rewrite <- (entry_matches_relevant test (fst r) e Hempty). exact He.
Qed.

(** C8: for a predicate that rejects the empty text, as the Matcher's
    contract has it, the answer to an "ok" reply holds exactly the entries
    whose title or description satisfies the predicate, in order, an absent
    field counting as not satisfying; the call never throws on such a reply,
    whatever fields are absent; and every article of the merged list of a
    run satisfies the predicate on its title or description.  The two
    examples of the specification follow for every predicate that accepts
    "Election results announced" and rejects "Weather today" and "Sunny". *)
Theorem search_keeps_iff_satisfies (test : string -> bool) :
  test "" = false ->
  (forall source entries,
     searchForArticlesFromSource test source (ReplyBody (Some (Payload.mk "ok" entries))) =
     Calls (AnswerArticles
       (map (article_of source)
          (filter (fun e => satisfies test (Entry.title e) || satisfies test (Entry.description e))
             entries)))) /\
  (forall source entries response e,
     searchForArticlesFromSource test source (ReplyBody (Some (Payload.mk "ok" entries))) =
       Calls (AnswerArticles response) ->
     In e entries ->
     (In (article_of source e) response <->
      satisfies test (Entry.title e) || satisfies test (Entry.description e) = true)) /\
  (forall e, Entry.title e = None -> Entry.description e = None ->
     entry_matches test e = false) /\
  (forall config sources replies,
     Forall (fun a => relevant test a = true)
       (articles (run_replies test config (dispatch sources) replies))) /\
  (test "Election results announced" = true ->
   forall source e, Entry.title e = Some "Election results announced" ->
     searchForArticlesFromSource test source (ReplyBody (Some (Payload.mk "ok" [e]))) =
     Calls (AnswerArticles [article_of source e])) /\
  (test "Weather today" = false -> test "Sunny" = false ->
   forall source e, Entry.title e = Some "Weather today" ->
     Entry.description e = Some "Sunny" ->
     searchForArticlesFromSource test source (ReplyBody (Some (Payload.mk "ok" [e]))) =
     Calls (AnswerArticles [])).
Proof.
  intros Hempty.
  assert (Hm : forall e, entry_matches test e =
                 (satisfies test (Entry.title e) || satisfies test (Entry.description e))).
  { intros e. unfold entry_matches. rewrite !field_matches_satisfies by exact Hempty.
    reflexivity. }
  split; [|split; [|split; [|split; [|split]]]].
  - intros source entries. rewrite search_ok. f_equal. f_equal. f_equal.
    apply filter_ext. exact Hm.
  - intros source entries response e Hs He. rewrite search_ok in Hs.
    injection Hs as <-. rewrite <- Hm. split.
    + intros Hin. apply in_map_iff in Hin. destruct Hin as (e' & Heq & He').
      apply filter_In in He'. destruct He' as [_ He'].
      rewrite (entry_matches_relevant test source e Hempty), <- Heq,
        <- (entry_matches_relevant test source e' Hempty). exact He'.
    + intros Hmatch. apply in_map. apply filter_In. split; assumption.
  - intros e Ht Hd. unfold entry_matches. rewrite Ht, Hd. reflexivity.
  - intros config sources replies. rewrite run_replies_run, run_articles.
    cbn [dispatch articles app]. apply successes_answers_relevant. exact Hempty.
  - intros Hyes source e Ht. rewrite search_ok. simpl.
    unfold entry_matches. rewrite Ht. simpl. rewrite Hyes. reflexivity.
  - intros Hno1 Hno2 source e Ht Hd. rewrite search_ok. simpl.
    unfold entry_matches. rewrite Ht, Hd. simpl. rewrite Hno1, Hno2.
    reflexivity.
Qed.

Lemma search_keeps_iff_satisfies_witness :
  scenario_test "" = false /\
  searchForArticlesFromSource scenario_test srcB
    (ReplyBody (Some (Payload.mk "ok"
       [entry "Election results announced" "Final count" 1600000000500%float]))) =
  Calls (AnswerArticles
    [article_of srcB (entry "Election results announced" "Final count" 1600000000500%float)]) /\
  searchForArticlesFromSource scenario_test srcA
    (ReplyBody (Some (Payload.mk "ok" [entry "Weather today" "Sunny" 1600000001000%float]))) =
  Calls (AnswerArticles []).
Proof.
  split; [reflexivity|].
  pose proof (search_keeps_iff_satisfies scenario_test eq_refl)
    as (_ & _ & _ & _ & Hyes & Hno).
  split.
  - apply (Hyes eq_refl). reflexivity.
  - apply (Hno eq_refl eq_refl); reflexivity.
Defined.

(** C9: the timestamp stored for an included entry is the quotient of its
    published-at milliseconds by 1000 in the arithmetic of JavaScript
    Numbers (binary64), with nothing applied to it afterwards; for
    1600000000500 ms it is 1600000000.5, whose exact value is
    3200000001/2 = 1600000000500/1000. *)
Theorem timestamp_keeps_fraction :
  (forall e, timestamp_of e = (Entry.publishedAt e / 1000)%float) /\
  (forall test source entries,
     exists response,
       searchForArticlesFromSource test source (ReplyBody (Some (Payload.mk "ok" entries))) =
         Calls (AnswerArticles response) /\
       map Article.timestamp response =
       map (fun e => (Entry.publishedAt e / 1000)%float) (filter (entry_matches test) entries)) /\
  timestamp_of (entry "Election results announced" "Final count" 1600000000500%float) =
    1600000000.5%float /\
  float_to_Q (timestamp_of
    (entry "Election results announced" "Final count" 1600000000500%float)) =
    Some (3200000001 # 2)%Q /\
  Qeq (3200000001 # 2) (1600000000500 # 1000) /\
  map Article.timestamp
    (successes (answers scenario_test [(srcB, replyB)])) = [1600000000.5%float].
Proof.
  split; [reflexivity|]. split; [|repeat split].
  intros test source entries. eexists. split; [apply search_ok|].
  rewrite map_map. reflexivity.
Qed.

(** C2: the end-to-end scenario evaluated.  The merged list holds the two
    articles of A and the one of B, none of which has an [id]; in whatever
    order the three replies arrive the callback is either called once with
    [undefined] or, when the failure of C arrives last, not called at all.
    Had the three articles carried the ids of their sources, the walk would
    have returned the article of B followed by the first of A. *)
Theorem scenario_callback_gets_undefined :
  getNews (Some "key") scenario_sources = Some (dispatch scenario_sources) /\
  articles (run_replies scenario_test scenario_config (dispatch scenario_sources)
              scenario_replies) = plain_candidates /\
  reduceArticles scenario_config plain_candidates = None /\
  (forall replies, Permutation scenario_replies replies ->
     callback_calls (run_replies scenario_test scenario_config
                       (dispatch scenario_sources) replies) = [None] \/
     (callback_calls (run_replies scenario_test scenario_config
                        (dispatch scenario_sources) replies) = [] /\
      exists before, replies = before ++ [(srcC, replyC)])) /\
  reduceArticles scenario_config tagged_candidates =
    Some [tagged_article "b" "B" "B1"; tagged_article "a" "A" "A1"].
Proof.
  split; [reflexivity|]. split; [reflexivity|]. split; [reflexivity|].
  split; [|reflexivity].
  intros replies HP. apply orders_complete in HP.
  cbn in HP.
  repeat (destruct HP as [<-|HP]); try destruct HP.
  all: first [ left; reflexivity
             | right; split; [reflexivity | eexists [_; _]; reflexivity] ].
Qed.

(** ** Further properties of [reduceArticles] *)

Lemma grouped_visits (articles : list Article.t) (priority : list string) :
  map snd (filter is_match (visits priority articles)) = grouped priority articles.
Proof.
  induction priority as [|p ps IH]; [reflexivity|].
  change (visits (p :: ps) articles)
    with (map (fun a => (p, a)) articles ++ visits ps articles).
  change (grouped (p :: ps) articles)
    with (filter (fun a => id_matches a p) articles ++ grouped ps articles).
  rewrite filter_app, map_app. f_equal; [|exact IH].
  clear IH. induction articles as [|a articles IH]; [reflexivity|].
  simpl. unfold is_match at 1. simpl.
  destruct (id_matches a p); simpl; rewrite IH; reflexivity.
Qed.

Lemma visits_fst_in (priority : list string) (articles : list Article.t) (v : Visit) :
  In v (visits priority articles) -> In (fst v) priority.
Proof.
  intros Hin. apply in_flat_map in Hin. destruct Hin as (p & Hp & Ha).
  apply in_map_iff in Ha. destruct Ha as (a & <- & _). exact Hp.
Qed.

Lemma id_matches_eq (a : Article.t) (p : string) :
  id_matches a p = true <-> Article.id a = Some p.
Proof.
  unfold id_matches. destruct (Article.id a) as [s|].
  - destruct (String.eqb_spec s p) as [->|Hne]; split; intros H;
      try reflexivity; try discriminate.
    injection H as ->. contradiction.
  - split; discriminate.
Qed.

Lemma running_counts_ge (vs : list Visit) :
  forall c, Forall (fun c' => (c <= c')%nat) (running_counts c vs).
Proof.
  induction vs as [|v vs IH]; intros c; simpl; [constructor|].
  constructor.
  - destruct (is_match v); lia.
  - eapply Forall_impl; [|apply IH]. intros c'. simpl.
    destruct (is_match v); lia.
Qed.

(** With [k + 1] matches still to find, the walk returns when the visits
    hold that many, with the first [k + 1] of them pushed. *)
Lemma walk_visits_firstn (cap : Z) (vs : list Visit) :
  forall (c k : nat) (final : list Article.t),
    cap = Z.of_nat (c + S k) ->
    walk_visits cap vs (c, final) =
    if (S k <=? List.length (filter is_match vs))%nat
    then Some (final ++ firstn (S k) (map snd (filter is_match vs)))
    else None.
Proof.
  induction vs as [|v vs IH]; intros c k final Hcap; [reflexivity|].
  cbn [walk_visits filter]. unfold visit.
  change (id_matches (snd v) (fst v)) with (is_match v).
  destruct (is_match v); cbn [fst snd].
  - destruct (Z.eqb_spec (Z.of_nat (S c)) cap) as [E|E].
    + assert (k = 0%nat) by lia. subst k. reflexivity.
    + destruct k as [|k]; [lia|].
      rewrite (IH (S c) k) by lia.
      cbn [List.length map].
      change (S (S k) <=? S (List.length (filter is_match vs)))%nat
        with (S k <=? List.length (filter is_match vs))%nat.
      destruct (S k <=? List.length (filter is_match vs))%nat; [|reflexivity].
      rewrite <- app_assoc. reflexivity.
  - destruct (Z.eqb_spec (Z.of_nat c) cap) as [E|E]; [lia|].
    apply IH. exact Hcap.
Qed.

(** X1: for a positive cap and an input longer than it, [reduceArticles]
    returns the first cap articles of the input grouped by priority entry
    when there are that many, and [undefined] otherwise. *)
Theorem reduceArticles_priority_prefix (config : Config.t) (articles : list Article.t) :
  0 < Config.maxArticlesStorageCap config ->
  Config.maxArticlesStorageCap config < Z.of_nat (List.length articles) ->
  reduceArticles config articles =
  if Config.maxArticlesStorageCap config <=?
       Z.of_nat (List.length (grouped (Config.sources config) articles))
  then Some (firstn (Z.to_nat (Config.maxArticlesStorageCap config))
               (grouped (Config.sources config) articles))
  else None.
Proof.
  intros Hpos Hlong. rewrite (reduceArticles_long _ _ Hlong).
  destruct (Z.to_nat (Config.maxArticlesStorageCap config)) as [|k] eqn:Hk; [lia|].
  rewrite (walk_visits_firstn _ _ 0 k) by lia.
  rewrite <- grouped_visits, length_map. cbn [app].
  match goal with
  | |- (if (?x <=? ?y)%nat then _ else _) = (if ?a <=? ?b then _ else _) =>
      destruct (Nat.leb_spec x y); destruct (Z.leb_spec a b)
  end; try reflexivity; unfold Visit in *; lia.
Qed.

Lemma reduceArticles_priority_prefix_witness :
  reduceArticles scenario_config tagged_candidates =
  Some (firstn 2 (grouped ["b"; "a"; "c"] tagged_candidates)).
Proof.
  apply (reduceArticles_priority_prefix scenario_config tagged_candidates);
    reflexivity.
Defined.

(** X2: with a cap of 0, [reduceArticles] returns the empty list exactly
    when the input is empty or the first article is not a match of the first
    priority entry; in every other case it returns [undefined]. *)
Theorem reduceArticles_cap_zero_cases (priority : list string) (articles : list Article.t) :
  (reduceArticles (Config.mk 0 priority) articles = Some [] <->
   articles = [] \/
   exists p ps a rest,
     priority = p :: ps /\ articles = a :: rest /\ id_matches a p = false) /\
  (reduceArticles (Config.mk 0 priority) articles = Some [] \/
   reduceArticles (Config.mk 0 priority) articles = None).
Proof.
  destruct articles as [|a rest].
  - split; [|left; reflexivity]. split; [left; reflexivity | reflexivity].
  - assert (Hlong : Config.maxArticlesStorageCap (Config.mk 0 priority) <
                    Z.of_nat (List.length (a :: rest))) by (cbn [List.length Config.maxArticlesStorageCap]; lia).
    rewrite (reduceArticles_long _ _ Hlong).
    cbn [Config.maxArticlesStorageCap Config.sources].
    destruct priority as [|p ps].
    + split; [|right; reflexivity]. split; [discriminate|].
      intros [H|(p & ps & a' & rest' & H & _)]; discriminate.
    + change (visits (p :: ps) (a :: rest))
        with ((p, a) :: (map (fun a => (p, a)) rest ++ visits ps (a :: rest))).
      cbn [walk_visits fst snd]. unfold visit.
      destruct (id_matches a p) eqn:M; cbn [fst snd].
      * change (Z.of_nat 1 =? 0) with false. cbv iota.
        assert (Hnone : walk_visits 0
                  (map (fun a => (p, a)) rest ++ visits ps (a :: rest)) (1%nat, [] ++ [a]) = None).
        { apply walk_visits_none. eapply Forall_impl; [|apply running_counts_ge].
          intros c'. simpl. lia. }
        rewrite Hnone. split; [|right; reflexivity]. split; [discriminate|].
        intros [H|(p' & ps' & a' & rest' & Hp & Ha & Hm)]; [discriminate|].
        injection Hp as <- _. injection Ha as <- _. rewrite M in Hm. discriminate.
      * change (Z.of_nat 0 =? 0) with true. cbv iota.
        split; [|left; reflexivity]. split; [|reflexivity].
        intros _. right. exists p, ps, a, rest. repeat split. exact M.
Qed.

(** X3: with a negative cap, [reduceArticles] returns [undefined] on every
    input, the empty one included. *)
Theorem reduceArticles_negative_cap (config : Config.t) (articles : list Article.t) :
  Config.maxArticlesStorageCap config < 0 ->
  reduceArticles config articles = None.
Proof.
  intros Hneg. rewrite reduceArticles_long by lia.
  apply walk_visits_none. apply Forall_forall. intros c _. lia.
Qed.

Lemma reduceArticles_negative_cap_witness :
  reduceArticles (Config.mk (-1) ["a"]) [] = None.
Proof.
  apply (reduceArticles_negative_cap (Config.mk (-1) ["a"]) []). reflexivity.
Defined.

(** A list returned by [reduceArticles] is not longer than the cap. *)
Lemma reduceArticles_some_short (config : Config.t) (articles l : list Article.t) :
  reduceArticles config articles = Some l ->
  Z.of_nat (List.length l) <= Config.maxArticlesStorageCap config.
Proof.
  intros H.
  destruct (Z.leb_spec (Z.of_nat (List.length articles)) (Config.maxArticlesStorageCap config))
    as [Hle|Hgt].
  - rewrite (reduceArticles_short _ _ Hle) in H. injection H as <-. exact Hle.
  - rewrite (reduceArticles_long _ _ Hgt) in H.
    apply walk_visits_some in H. destruct H as (seen & rest & _ & -> & Hc).
    cbn [app]. rewrite length_map. unfold Visit in *. lia.
Qed.

(** X4: [reduceArticles] is idempotent: a list it returns is returned
    unchanged when given to it again. *)
Theorem reduceArticles_idempotent (config : Config.t) (articles l : list Article.t) :
  reduceArticles config articles = Some l ->
  reduceArticles config l = Some l.
Proof.
  intros H. apply reduceArticles_short. apply (reduceArticles_some_short _ _ _ H).
Qed.

Lemma reduceArticles_idempotent_witness :
  reduceArticles scenario_config
    [tagged_article "b" "B" "B1"; tagged_article "a" "A" "A1"] =
  Some [tagged_article "b" "B" "B1"; tagged_article "a" "A" "A1"].
Proof.
  apply (reduceArticles_idempotent scenario_config tagged_candidates). reflexivity.
Defined.

(** X5: on an input longer than the cap, every article [reduceArticles]
    returns has an [id], and that [id] is an entry of the priority list:
    an article without [id], or whose [id] is not listed, is never selected. *)
Theorem reduceArticles_selects_listed (config : Config.t) (articles l : list Article.t) :
  Config.maxArticlesStorageCap config < Z.of_nat (List.length articles) ->
  reduceArticles config articles = Some l ->
  Forall (fun a => exists p, In p (Config.sources config) /\ Article.id a = Some p) l.
Proof.
  intros Hlong H. rewrite (reduceArticles_long _ _ Hlong) in H.
  apply walk_visits_some in H. destruct H as (seen & rest & Hvs & -> & _).
  cbn [app]. apply Forall_forall. intros a Ha.
  apply in_map_iff in Ha. destruct Ha as (v & <- & Hv).
  apply filter_In in Hv. destruct Hv as [Hv Hm].
  exists (fst v). split.
  - apply (visits_fst_in _ articles). rewrite Hvs. apply in_or_app. left. exact Hv.
  - apply id_matches_eq. exact Hm.
Qed.

Lemma reduceArticles_selects_listed_witness :
  Forall (fun a => exists p, In p ["b"; "a"; "c"] /\ Article.id a = Some p)
    [tagged_article "b" "B" "B1"; tagged_article "a" "A" "A1"].
Proof.
  apply (reduceArticles_selects_listed scenario_config tagged_candidates); reflexivity.
Defined.

Lemma grouped_NoDup (articles : list Article.t) (priority : list string) :
  NoDup priority -> NoDup articles -> NoDup (grouped priority articles).
Proof.
  intros Hp Ha. induction Hp as [|p ps Hnotin Hps IH]; [constructor|].
  change (grouped (p :: ps) articles)
    with (filter (fun a => id_matches a p) articles ++ grouped ps articles).
  apply NoDup_app; [apply NoDup_filter; exact Ha | exact IH |].
  intros a H1 H2. apply filter_In in H1. destruct H1 as [_ H1].
  apply id_matches_eq in H1.
  unfold grouped in H2. apply in_flat_map in H2. destruct H2 as (p' & Hp' & H2).
  apply filter_In in H2. destruct H2 as [_ H2]. apply id_matches_eq in H2.
  rewrite H1 in H2. injection H2 as ->. contradiction.
Qed.

(** X6: when neither the priority list nor the input has a repeated element,
    a list returned by [reduceArticles] has none either: no article is
    selected twice. *)
Theorem reduceArticles_NoDup (config : Config.t) (articles l : list Article.t) :
  NoDup (Config.sources config) ->
  NoDup articles ->
  reduceArticles config articles = Some l ->
  NoDup l.
Proof.
  intros Hp Ha H.
  destruct (Z.leb_spec (Z.of_nat (List.length articles)) (Config.maxArticlesStorageCap config))
    as [Hle|Hgt].
  - rewrite (reduceArticles_short _ _ Hle) in H. injection H as <-. exact Ha.
  - rewrite (reduceArticles_long _ _ Hgt) in H.
    apply walk_visits_some in H. destruct H as (seen & rest & Hvs & -> & _).
    cbn [app].
    pose proof (grouped_NoDup articles _ Hp Ha) as Hg.
    rewrite <- grouped_visits, Hvs, filter_app, map_app in Hg.
    apply NoDup_app_remove_r in Hg. exact Hg.
Qed.

Lemma reduceArticles_NoDup_witness :
  NoDup [tagged_article "b" "B" "B1"; tagged_article "a" "A" "A1"].
Proof.
  apply (reduceArticles_NoDup scenario_config tagged_candidates).
  - repeat constructor; simpl; intuition discriminate.
  - repeat constructor; simpl; intuition discriminate.
  - reflexivity.
Defined.

(** ** Further properties of [getNews] *)

(** In a run of [getNews] the callback is either not called, or called once,
    by the successful answer that is the last of as many as there are
    sources. *)
Lemma dispatch_calls_cases (config : Config.t) (sources : list Source.t)
  (events : list Event) :
  callback_calls (run config (dispatch sources) events) = [] \/
  exists before ev after response,
    events = before ++ ev :: after /\
    S (List.length before) = List.length sources /\
    snd ev = AnswerArticles response /\
    callback_calls (run config (dispatch sources) events) =
      [reduceArticles config (successes (before ++ [ev]))].
Proof.
  destruct (Nat.eq_dec (List.length sources) 0) as [Hz|Hnz].
  { left. apply run_calls_late. cbn [dispatch pending]. lia. }
  destruct (Nat.lt_ge_cases (List.length events) (List.length sources)) as [Hlt|Hge].
  { left. apply run_calls_pending. cbn [dispatch pending]. lia. }
  pose proof (firstn_skipn (List.length sources - 1) events) as Hsplit.
  assert (Hlen : List.length (firstn (List.length sources - 1) events) =
                 (List.length sources - 1)%nat)
    by (apply firstn_length_le; lia).
  destruct (skipn (List.length sources - 1) events) as [|ev after] eqn:Hs.
  { apply (f_equal (@List.length Event)) in Hs. rewrite length_skipn in Hs.
    simpl in Hs. lia. }
  rewrite <- Hsplit.
  rewrite run_calls_last by (cbn [dispatch pending]; lia).
  cbn [dispatch callback_calls articles app].
  destruct (snd ev) as [e|response] eqn:E; [left; reflexivity|].
  right. exists (firstn (List.length sources - 1) events), ev, after, response.
  repeat split; [unfold Event in *; lia | exact E].
Qed.

(** X7: in every run of [getNews], whatever arrives and in whatever order,
    the callback is called at most once, and not at all while fewer answers
    have arrived than requests were started; [pending] is the number of
    requests started less the number of answers arrived, and the set of
    started requests never changes. *)
Theorem getNews_callback_at_most_once (config : Config.t) (sources : list Source.t)
  (events : list Event) :
  (List.length (callback_calls (run config (dispatch sources) events)) <= 1)%nat /\
  ((List.length events < List.length sources)%nat ->
   callback_calls (run config (dispatch sources) events) = []) /\
  pending (run config (dispatch sources) events) =
    Z.of_nat (List.length sources) - Z.of_nat (List.length events) /\
  dispatched (run config (dispatch sources) events) = sources.
Proof.
  split; [|split; [|split]].
  - destruct (dispatch_calls_cases config sources events)
      as [->|(before & ev & after & response & _ & _ & _ & ->)]; simpl; lia.
  - intros Hlt. apply run_calls_pending. cbn [dispatch pending]. lia.
  - rewrite run_pending. reflexivity.
  - rewrite run_dispatched. reflexivity.
Qed.

(** X8: once every query of the source list has been answered, each once,
    the callback has been called exactly once, with [reduceArticles] of the
    final merged list, if the answer that arrived last was a success, and
    has not been called if it was a failure. *)
Theorem getNews_delivers_iff_last_succeeds (config : Config.t) (sources : list Source.t)
  (before : list Event) (ev : Event) :
  all_settled sources (before ++ [ev]) ->
  callback_calls (run config (dispatch sources) (before ++ [ev])) =
  if is_failure ev then []
  else [reduceArticles config (articles (run config (dispatch sources) (before ++ [ev])))].
Proof.
  intros HP. apply Permutation_length in HP.
  rewrite length_map, length_app in HP. cbn [List.length] in HP.
  rewrite (run_calls_last config (dispatch sources) before [] ev)
    by (cbn [dispatch pending]; lia).
  rewrite run_articles. cbn [dispatch callback_calls articles app].
  unfold is_failure. destruct (snd ev); reflexivity.
Qed.

Lemma getNews_delivers_iff_last_succeeds_witness :
  callback_calls (run scenario_config (dispatch [srcC; srcB])
    [(srcC, AnswerError (RequestError "ECONNRESET"));
     (srcB, AnswerArticles [plain_article "B" "Election results announced"])]) =
  [Some [plain_article "B" "Election results announced"]].
Proof.
  apply (getNews_delivers_iff_last_succeeds scenario_config [srcC; srcB]
           [(srcC, AnswerError (RequestError "ECONNRESET"))]
           (srcB, AnswerArticles [plain_article "B" "Election results announced"])).
  apply Permutation_refl.
Defined.

(** X9: the order of arrival changes the order of the merged list and of
    the console, not their content: two runs over the same answers in
    different orders end with merged lists, and consoles, that are
    permutations of each other. *)
Theorem getNews_merge_order_independent (config : Config.t) (sources : list Source.t)
  (events events' : list Event) :
  Permutation events events' ->
  Permutation (articles (run config (dispatch sources) events))
              (articles (run config (dispatch sources) events')) /\
  Permutation (console (run config (dispatch sources) events))
              (console (run config (dispatch sources) events')).
Proof.
  intros HP. rewrite !run_articles, !run_console.
  cbn [dispatch articles console app]. split.
  - unfold successes. apply Permutation_flat_map. exact HP.
  - unfold failures. apply Permutation_flat_map. exact HP.
Qed.

Lemma getNews_merge_order_independent_witness :
  Permutation
    (articles (run scenario_config (dispatch [srcA; srcB])
       [(srcA, AnswerArticles [plain_article "A" "Election day"]);
        (srcB, AnswerArticles [plain_article "B" "Election results announced"])]))
    (articles (run scenario_config (dispatch [srcA; srcB])
       [(srcB, AnswerArticles [plain_article "B" "Election results announced"]);
        (srcA, AnswerArticles [plain_article "A" "Election day"])])).
Proof.
  apply (getNews_merge_order_independent scenario_config [srcA; srcB]).
  apply perm_swap.
Defined.

Lemma run_calls_failures (config : Config.t) (events : list Event) :
  forall st,
    forallb is_failure events = true ->
    callback_calls (run config st events) = callback_calls st.
Proof.
  induction events as [|ev events IH]; intros st Hall; [reflexivity|].
  cbn [forallb] in Hall. apply andb_prop in Hall. destruct Hall as [Hev Hall].
  rewrite run_cons, (IH _ Hall), on_answer_calls.
  unfold is_failure in Hev. destruct (snd ev); [apply app_nil_r | discriminate].
Qed.

Lemma failures_length (events : list Event) :
  forallb is_failure events = true ->
  successes events = [] /\ List.length (failures events) = List.length events.
Proof.
  induction events as [|ev events IH]; intros Hall; [split; reflexivity|].
  cbn [forallb] in Hall. apply andb_prop in Hall. destruct Hall as [Hev Hall].
  destruct (IH Hall) as [Hs Hf].
  change (ev :: events) with ([ev] ++ events).
  rewrite successes_app, failures_app, length_app, Hs, Hf.
  unfold is_failure in Hev. unfold successes, failures. simpl.
  destruct (snd ev); [split; reflexivity | discriminate].
Qed.

(** X10: when every query fails, [getNews] writes one line per source on the
    console, merges nothing, and never calls the callback. *)
Theorem getNews_all_failed_silent (config : Config.t) (sources : list Source.t)
  (events : list Event) :
  all_settled sources events ->
  forallb is_failure events = true ->
  callback_calls (run config (dispatch sources) events) = [] /\
  articles (run config (dispatch sources) events) = [] /\
  List.length (console (run config (dispatch sources) events)) = List.length sources.
Proof.
  intros HP Hall. apply Permutation_length in HP. rewrite length_map in HP.
  destruct (failures_length events Hall) as [Hs Hf].
  rewrite run_calls_failures by exact Hall.
  rewrite run_articles, run_console. cbn [dispatch callback_calls articles console app].
  rewrite Hs, Hf. repeat split. exact HP.
Qed.

Lemma getNews_all_failed_silent_witness :
  callback_calls (run scenario_config (dispatch [srcA; srcC])
    [(srcC, AnswerError (RequestError "ECONNRESET"));
     (srcA, AnswerError (NewError "NewsAPI returned status error "))]) = [].
Proof.
  apply (getNews_all_failed_silent scenario_config [srcA; srcC]
           [(srcC, AnswerError (RequestError "ECONNRESET"));
            (srcA, AnswerError (NewError "NewsAPI returned status error "))]).
  - apply perm_swap.
  - reflexivity.
Defined.

(** ** Further properties of the pipeline *)

(** On articles without [id] and with a cap other than 0, [reduceArticles]
    either passes the input through or returns [undefined]. *)
Lemma reduceArticles_no_id (config : Config.t) (articles : list Article.t) :
  Config.maxArticlesStorageCap config <> 0 ->
  Forall (fun a => Article.id a = None) articles ->
  reduceArticles config articles =
  if Z.of_nat (List.length articles) <=? Config.maxArticlesStorageCap config
  then Some articles else None.
Proof.
  intros Hcap Hid.
  destruct (Z.leb_spec (Z.of_nat (List.length articles)) (Config.maxArticlesStorageCap config))
    as [Hle|Hgt].
  - apply reduceArticles_short. exact Hle.
  - rewrite (reduceArticles_long _ _ Hgt). apply walk_visits_none.
    eapply Forall_impl;
      [|apply running_counts_no_match, (visits_no_match (Config.sources config) articles)].
    + intros c ->. simpl. lia.
    + intros a p Ha _. unfold id_matches.
      rewrite Forall_forall in Hid. rewrite (Hid a Ha). reflexivity.
Qed.

Lemma successes_answers_no_id (test : string -> bool) (replies : list (Source.t * Reply)) :
  Forall (fun a => Article.id a = None) (successes (answers test replies)).
Proof.
  apply Forall_forall. intros a Ha.
  unfold successes in Ha. apply in_flat_map in Ha. destruct Ha as ([s ans] & Hev & Ha).
  unfold answers in Hev. apply in_flat_map in Hev. destruct Hev as (r & _ & Hr).
  destruct (searchForArticlesFromSource test (fst r) (snd r)) as [|answer] eqn:Hs; [destruct Hr|].
  destruct Hr as [E|[]]. injection E as <- <-. simpl in Ha.
  destruct answer as [e|response]; [destruct Ha|].
  apply search_builds_no_id in Hs. rewrite Forall_forall in Hs. apply Hs. exact Ha.
Qed.

(** X11: with a cap other than 0, what [getNews] hands to the callback for
    the articles [searchForArticlesFromSource] builds is either [undefined]
    or the whole merged list as it stands at that answer, which then has at
    most cap articles: the caller never receives a list cut to the cap. *)
Theorem getNews_delivers_whole_or_undefined (test : string -> bool) (config : Config.t)
  (sources : list Source.t) (replies : list (Source.t * Reply)) :
  Config.maxArticlesStorageCap config <> 0 ->
  forall arg,
    In arg (callback_calls (run_replies test config (dispatch sources) replies)) ->
    arg = None \/
    exists before ev after,
      answers test replies = before ++ ev :: after /\
      arg = Some (successes (before ++ [ev])) /\
      Z.of_nat (List.length (successes (before ++ [ev]))) <=
        Config.maxArticlesStorageCap config.
Proof.
  intros Hcap arg Hin. rewrite run_replies_run in Hin.
  destruct (dispatch_calls_cases config sources (answers test replies))
    as [Hnil|(before & ev & after & response & Hev & _ & _ & Hcalls)].
  - rewrite Hnil in Hin. destruct Hin.
  - rewrite Hcalls in Hin. destruct Hin as [<-|[]].
    assert (Hid : Forall (fun a => Article.id a = None) (successes (before ++ [ev]))).
    { pose proof (successes_answers_no_id test replies) as Hall.
      rewrite Hev in Hall.
      change (before ++ ev :: after) with (before ++ [ev] ++ after) in Hall.
      rewrite app_assoc, successes_app in Hall.
      apply Forall_app in Hall. destruct Hall as [Hall _]. exact Hall. }
    rewrite (reduceArticles_no_id config _ Hcap Hid).
    destruct (Z.leb_spec (Z.of_nat (List.length (successes (before ++ [ev]))))
                (Config.maxArticlesStorageCap config)) as [Hle|Hgt].
    + right. exists before, ev, after. repeat split; assumption.
    + left. reflexivity.
Qed.

Lemma getNews_delivers_whole_or_undefined_witness :
  In None (callback_calls (run_replies scenario_test scenario_config
             (dispatch scenario_sources)
             [(srcA, replyA); (srcC, replyC); (srcB, replyB)])) /\
  (@None (list Article.t) = None \/
   exists before ev after,
     answers scenario_test [(srcA, replyA); (srcC, replyC); (srcB, replyB)] =
       before ++ ev :: after /\
     @None (list Article.t) = Some (successes (before ++ [ev])) /\
     Z.of_nat (List.length (successes (before ++ [ev]))) <=
       Config.maxArticlesStorageCap scenario_config).
Proof.
  split; [left; reflexivity|].
  apply (getNews_delivers_whole_or_undefined scenario_test scenario_config
           scenario_sources [(srcA, replyA); (srcC, replyC); (srcB, replyB)]).
  - discriminate.
  - left. reflexivity.
Defined.

Lemma answers_length_le (test : string -> bool) (replies : list (Source.t * Reply)) :
  (List.length (answers test replies) <= List.length replies)%nat.
Proof.
  induction replies as [|r replies IH]; [apply Nat.le_refl|].
  change (answers test (r :: replies))
    with (match searchForArticlesFromSource test (fst r) (snd r) with
          | Calls answer => [(fst r, answer)]
          | Throws => []
          end ++ answers test replies).
  rewrite length_app. cbn [List.length].
  destruct (searchForArticlesFromSource test (fst r) (snd r)); simpl; unfold Event in *; lia.
Qed.

Lemma answers_length_lt (test : string -> bool) (replies : list (Source.t * Reply))
  (source : Source.t) :
  In (source, ReplyBody None) replies ->
  (List.length (answers test replies) < List.length replies)%nat.
Proof.
  induction replies as [|r replies IH]; intros Hin; [destruct Hin|].
  change (answers test (r :: replies))
    with (match searchForArticlesFromSource test (fst r) (snd r) with
          | Calls answer => [(fst r, answer)]
          | Throws => []
          end ++ answers test replies).
  rewrite length_app. cbn [List.length].
  destruct Hin as [->|Hin].
  - simpl. pose proof (answers_length_le test replies). unfold Event in *. lia.
  - specialize (IH Hin).
    destruct (searchForArticlesFromSource test (fst r) (snd r)); simpl; unfold Event in *; lia.
Qed.

(** X12: a reply whose body is not JSON makes [JSON.parse] throw before the
    per-source callback is reached, so [pending] is not decremented for it:
    with at most one reply per started request, [pending] stays above 0 and
    the caller's callback is never called, whatever the other replies. *)
Theorem getNews_unparsable_body_hangs (test : string -> bool) (config : Config.t)
  (sources : list Source.t) (replies : list (Source.t * Reply)) (source : Source.t) :
  (List.length replies <= List.length sources)%nat ->
  In (source, ReplyBody None) replies ->
  callback_calls (run_replies test config (dispatch sources) replies) = [] /\
  0 < pending (run_replies test config (dispatch sources) replies).
Proof.
  intros Hlen Hin. pose proof (answers_length_lt test replies source Hin) as Hlt.
  rewrite run_replies_run. split.
  - apply run_calls_pending. cbn [dispatch pending]. lia.
  - rewrite run_pending. cbn [dispatch pending]. lia.
Qed.

Lemma getNews_unparsable_body_hangs_witness :
  callback_calls (run_replies scenario_test scenario_config (dispatch scenario_sources)
    [(srcC, ReplyBody None); (srcA, replyA); (srcB, replyB)]) = [] /\
  0 < pending (run_replies scenario_test scenario_config (dispatch scenario_sources)
    [(srcC, ReplyBody None); (srcA, replyA); (srcB, replyB)]).
Proof.
  apply (getNews_unparsable_body_hangs scenario_test scenario_config scenario_sources
           [(srcC, ReplyBody None); (srcA, replyA); (srcB, replyB)] srcC).
  - apply Nat.le_refl.
  - left. reflexivity.
Defined.

(** ** Further properties of [searchForArticlesFromSource] *)

Lemma field_matches_iff (test : string -> bool) (field : option string) :
  field_matches test field = true <-> nonempty_match test field.
Proof.
  unfold nonempty_match. destruct field as [s|]; simpl.
  - unfold truthy. destruct (String.eqb_spec s "") as [->|Hne]; simpl.
    + split; [discriminate|]. intros (s' & Hs & Hn & _). injection Hs as <-.
      contradiction.
    + split.
      * intros Ht. exists s. repeat split; assumption.
      * intros (s' & Hs & _ & Ht). injection Hs as <-. exact Ht.
  - split; [discriminate|]. intros (s' & Hs & _). discriminate.
Qed.

Lemma field_matches_ext (test test' : string -> bool) (field : option string) :
  (forall s, s <> "" -> test' s = test s) ->
  field_matches test' field = field_matches test field.
Proof.
  intros Hagree. destruct field as [s|]; [|reflexivity]. simpl. unfold truthy.
  destruct (String.eqb_spec s "") as [->|Hne]; [reflexivity|].
  simpl. apply Hagree. exact Hne.
Qed.

(** X14: for every predicate, an entry of an "ok" payload is kept exactly
    when its title is present, not empty and accepted, or its description
    is; the predicate is never consulted on an empty string, so two
    predicates that agree on the non-empty strings give the same answer. *)
Theorem search_keeps_nonempty_matching (test : string -> bool) (source : Source.t)
  (entries : list Entry.t) :
  exists response,
    searchForArticlesFromSource test source (ReplyBody (Some (Payload.mk "ok" entries))) =
      Calls (AnswerArticles response) /\
    (forall e, In e entries ->
       (In (article_of source e) response <->
        nonempty_match test (Entry.title e) \/ nonempty_match test (Entry.description e))) /\
    (forall test',
       (forall s, s <> "" -> test' s = test s) ->
       searchForArticlesFromSource test' source (ReplyBody (Some (Payload.mk "ok" entries))) =
         Calls (AnswerArticles response)).
Proof.
  exists (map (article_of source) (filter (entry_matches test) entries)).
  split; [apply search_ok|]. split.
  - intros e He. rewrite <- !field_matches_iff, <- orb_true_iff.
    change (field_matches test (Entry.title e) || field_matches test (Entry.description e))
      with (entry_matches test e).
    split.
    + intros Hin. apply in_map_iff in Hin. destruct Hin as (e' & Heq & He').
      apply filter_In in He'. destruct He' as [_ He'].
      unfold entry_matches in *.
      pose proof (f_equal Article.title Heq) as Ht.
      pose proof (f_equal Article.description Heq) as Hd.
      cbn [article_of Article.title Article.description] in Ht, Hd.
      rewrite <- Ht, <- Hd. exact He'.
    + intros Hm. apply in_map. apply filter_In. split; assumption.
  - intros test' Hagree. rewrite search_ok. f_equal. f_equal. f_equal.
    apply filter_ext. intros e. unfold entry_matches.
    rewrite !(field_matches_ext test test') by exact Hagree. reflexivity.
Qed.

(** X15: the answer to an "ok" payload keeps the order of the entries, is
    never longer than the payload, and the answer to two payloads put end
    to end is the two answers put end to end. *)
Theorem search_distributes_over_append (test : string -> bool) (source : Source.t)
  (entries1 entries2 : list Entry.t) :
  exists response1 response2,
    searchForArticlesFromSource test source (ReplyBody (Some (Payload.mk "ok" entries1))) =
      Calls (AnswerArticles response1) /\
    searchForArticlesFromSource test source (ReplyBody (Some (Payload.mk "ok" entries2))) =
      Calls (AnswerArticles response2) /\
    searchForArticlesFromSource test source
      (ReplyBody (Some (Payload.mk "ok" (entries1 ++ entries2)))) =
      Calls (AnswerArticles (response1 ++ response2)) /\
    (List.length response1 <= List.length entries1)%nat.
Proof.
  exists (map (article_of source) (filter (entry_matches test) entries1)),
         (map (article_of source) (filter (entry_matches test) entries2)).
  split; [apply search_ok|]. split; [apply search_ok|]. split.
  - rewrite search_ok, filter_app, map_app. reflexivity.
  - rewrite length_map. apply filter_length_le.
Qed.

(** ** Growth of the state and the successful path *)

Lemma run_calls_extend (config : Config.t) (events : list Event) :
  forall st, exists added,
    callback_calls (run config st events) = callback_calls st ++ added.
Proof.
  induction events as [|ev events IH]; intros st.
  - exists []. simpl. rewrite app_nil_r. reflexivity.
  - rewrite run_cons. destruct (IH (on_answer config (fst ev) (snd ev) st)) as (added & ->).
    rewrite on_answer_calls, <- app_assoc. eexists. reflexivity.
Qed.

(** X16: the state of a run only grows: answers that arrive later append the
    responses of the successes to the merged list, whole and in order of
    arrival, append the failures to the console, and leave in place the
    calls already made to the callback. *)
Theorem getNews_state_append_only (config : Config.t) (sources : list Source.t)
  (events more : list Event) :
  articles (run config (dispatch sources) (events ++ more)) =
    articles (run config (dispatch sources) events) ++ successes more /\
  console (run config (dispatch sources) (events ++ more)) =
    console (run config (dispatch sources) events) ++ failures more /\
  exists added,
    callback_calls (run config (dispatch sources) (events ++ more)) =
    callback_calls (run config (dispatch sources) events) ++ added.
Proof.
  rewrite run_app. split; [apply run_articles|]. split; [apply run_console|].
  apply run_calls_extend.
Qed.

(** X17: when every query has been answered, the last answer is a success
    and the merged list is not longer than the cap, the callback has been
    called exactly once with the merged list: the responses of the
    successful queries in order of arrival. *)
Theorem getNews_delivers_merged_within_cap (config : Config.t) (sources : list Source.t)
  (before : list Event) (ev : Event) :
  all_settled sources (before ++ [ev]) ->
  is_failure ev = false ->
  Z.of_nat (List.length (successes (before ++ [ev]))) <= Config.maxArticlesStorageCap config ->
  callback_calls (run config (dispatch sources) (before ++ [ev])) =
    [Some (successes (before ++ [ev]))].
Proof.
  intros HP Hok Hle. apply Permutation_length in HP.
  rewrite length_map, length_app in HP. cbn [List.length] in HP.
  rewrite (run_calls_last config (dispatch sources) before [] ev)
    by (cbn [dispatch pending]; lia).
  cbn [dispatch callback_calls articles app].
  unfold is_failure in Hok. destruct (snd ev); [discriminate|].
  rewrite (reduceArticles_short _ _ Hle). reflexivity.
Qed.

Lemma getNews_delivers_merged_within_cap_witness :
  callback_calls (run scenario_config (dispatch [srcA; srcB])
    [(srcA, AnswerArticles [plain_article "A" "Election day"]);
     (srcB, AnswerArticles [plain_article "B" "Election results announced"])]) =
  [Some [plain_article "A" "Election day";
         plain_article "B" "Election results announced"]].
Proof.
  apply (getNews_delivers_merged_within_cap scenario_config [srcA; srcB]
           [(srcA, AnswerArticles [plain_article "A" "Election day"])]
           (srcB, AnswerArticles [plain_article "B" "Election results announced"])).
  - apply Permutation_refl.
  - reflexivity.
  - vm_compute. discriminate.
Defined.
